(** * powersupply.py: energy budget of a nanosatellite over one orbit

    A shallow embedding of [src/powersupply.py]: the solar power model, the
    power consumption profile of the subsystems and the battery charging
    loop, followed by the properties established about them.

    Numbers.  The script computes with IEEE doubles.  Here every number is
    an exact rational ([Q]), so rounding, infinities and NaN are not
    modelled; [x / 0] is [0] in [Q], where numpy gives [inf] or [nan], and
    the statements that depend on the sign of a divisor carry it as a
    hypothesis.  [np.sin (np.deg2rad angle)] is a parameter [sind] of the
    development: theorems hold for every such function, and the worked
    examples use [sind_table], a rational function that is exact at the
    angles they visit.

    Constants.  The module-level constants of the script that the model and
    the battery loop read are gathered in a record [Config];
    [source_config] holds the values written in the script.  Constants
    computed from them keep their names and take the configuration as an
    argument.  Plot colours, the unused solar-cell geometry ([i0], [l], [b],
    [i15], [A], [Prad]) and the matplotlib calls are left out. *)

From Stdlib Require Import QArith Qround ZArith List Bool Lia Lqa.
Import ListNotations.
Open Scope Q_scope.

Module PowerSupply.

(** ** Comparisons and Python arithmetic on rationals *)

(** [x < y] as a boolean. *)
Definition Qltb (x y : Q) : bool := negb (Qle_bool y x).

(** Python's [x % y] on numbers: [x - y * floor (x / y)]. *)
Definition py_mod (x y : Q) : Q := x - y * inject_Z (Qfloor (x / y)).

(** Python's [x / y] on Python numbers raises [ZeroDivisionError] when [y]
    is zero. *)
Definition py_div (x y : Q) : option Q :=
  if Qeq_bool y 0 then None else Some (x / y).

(** [np.arange (start, stop, step)]: [ceil ((stop - start) / step)] values
    [start + i * step]; a zero step is an error, a step of the wrong sign
    gives the empty array. *)
Definition arange (start stop step : Q) : option (list Q) :=
  if Qeq_bool step 0 then None
  else
    let n := Z.to_nat (Qceiling ((stop - start) / step)) in
    Some (map (fun i => start + inject_Z (Z.of_nat i) * step) (seq 0 n)).

(** [l[i] = v] on a list; the loops below only write inside the list (Python
    raises [IndexError] outside, here the list is returned unchanged). *)
Fixpoint set_item (l : list Q) (i : nat) (v : Q) : list Q :=
  match l, i with
  | [], _ => []
  | _ :: t, O => v :: t
  | h :: t, S j => h :: set_item t j v
  end.

(** ** Configuration: the constants of the script *)

Record Config := mkConfig {
  (* solar power *)
  T : Q;                 (* min, orbital period *)
  Pmax : Q;              (* mW, maximum solar cell power *)
  step : Q;              (* deg, angular step of the sweep *)
  (* idle consumption, mW *)
  gps_idle : Q;
  mcu_idle : Q;
  imu_idle : Q;
  rxtx_idle : Q;
  cam_idle : Q;
  ac_idle : Q;
  env_idle : Q;
  (* transceiver *)
  T_rxtx : Q;
  start_rxtx : Q;
  f_rxtx : Q;
  (* camera *)
  T_cam : Q;
  start_cam : Q;
  end_cam : Q;
  f_cam : Q;
  (* attitude correction *)
  T_ac : Q;
  start_ac : Q;
  f_ac : Q;
  (* switches *)
  rxtx_active : bool;
  cam_active : bool;
  AC_active : bool;
  (* battery *)
  Cmax : Q;              (* mAh *)
  charging_speed : Q;
  U_bat : Q              (* V *)
}.

(** The values of the script. *)
Definition source_config : Config :=
  {| T := 90; Pmax := 220; step := 1.0 / 60;
     gps_idle := 50; mcu_idle := 10; imu_idle := 6; rxtx_idle := 0.9;
     cam_idle := 0; ac_idle := 0; env_idle := 1;
     T_rxtx := 15; start_rxtx := 60; f_rxtx := 360;
     T_cam := 0.03; start_cam := 0; end_cam := 180; f_cam := 5;
     T_ac := 1; start_ac := 0; f_ac := 10;
     rxtx_active := true; cam_active := true; AC_active := true;
     Cmax := 200; charging_speed := 5.0; U_bat := 3.7 |}.

(** Setters for the constants that the examples and statements vary. *)
Definition set_Pmax (v : Q) (c : Config) : Config :=
  mkConfig (T c) v (step c) (gps_idle c) (mcu_idle c) (imu_idle c)
    (rxtx_idle c) (cam_idle c) (ac_idle c) (env_idle c) (T_rxtx c)
    (start_rxtx c) (f_rxtx c) (T_cam c) (start_cam c) (end_cam c) (f_cam c)
    (T_ac c) (start_ac c) (f_ac c) (rxtx_active c) (cam_active c)
    (AC_active c) (Cmax c) (charging_speed c) (U_bat c).

Definition set_step (v : Q) (c : Config) : Config :=
  mkConfig (T c) (Pmax c) v (gps_idle c) (mcu_idle c) (imu_idle c)
    (rxtx_idle c) (cam_idle c) (ac_idle c) (env_idle c) (T_rxtx c)
    (start_rxtx c) (f_rxtx c) (T_cam c) (start_cam c) (end_cam c) (f_cam c)
    (T_ac c) (start_ac c) (f_ac c) (rxtx_active c) (cam_active c)
    (AC_active c) (Cmax c) (charging_speed c) (U_bat c).

Definition set_switches (rxtx cam ac : bool) (c : Config) : Config :=
  mkConfig (T c) (Pmax c) (step c) (gps_idle c) (mcu_idle c) (imu_idle c)
    (rxtx_idle c) (cam_idle c) (ac_idle c) (env_idle c) (T_rxtx c)
    (start_rxtx c) (f_rxtx c) (T_cam c) (start_cam c) (end_cam c) (f_cam c)
    (T_ac c) (start_ac c) (f_ac c) rxtx cam ac (Cmax c) (charging_speed c)
    (U_bat c).

Definition set_Cmax (v : Q) (c : Config) : Config :=
  mkConfig (T c) (Pmax c) (step c) (gps_idle c) (mcu_idle c) (imu_idle c)
    (rxtx_idle c) (cam_idle c) (ac_idle c) (env_idle c) (T_rxtx c)
    (start_rxtx c) (f_rxtx c) (T_cam c) (start_cam c) (end_cam c) (f_cam c)
    (T_ac c) (start_ac c) (f_ac c) (rxtx_active c) (cam_active c)
    (AC_active c) v (charging_speed c) (U_bat c).

Definition set_charging_speed (v : Q) (c : Config) : Config :=
  mkConfig (T c) (Pmax c) (step c) (gps_idle c) (mcu_idle c) (imu_idle c)
    (rxtx_idle c) (cam_idle c) (ac_idle c) (env_idle c) (T_rxtx c)
    (start_rxtx c) (f_rxtx c) (T_cam c) (start_cam c) (end_cam c) (f_cam c)
    (T_ac c) (start_ac c) (f_ac c) (rxtx_active c) (cam_active c)
    (AC_active c) (Cmax c) v (U_bat c).

Definition set_U_bat (v : Q) (c : Config) : Config :=
  mkConfig (T c) (Pmax c) (step c) (gps_idle c) (mcu_idle c) (imu_idle c)
    (rxtx_idle c) (cam_idle c) (ac_idle c) (env_idle c) (T_rxtx c)
    (start_rxtx c) (f_rxtx c) (T_cam c) (start_cam c) (end_cam c) (f_cam c)
    (T_ac c) (start_ac c) (f_ac c) (rxtx_active c) (cam_active c)
    (AC_active c) (Cmax c) (charging_speed c) v.

(** ** Solar power *)

(** [angles = np.arange (0, 360, step)]. *)
Definition angles (cfg : Config) : option (list Q) := arange 0 360 (step cfg).

(** [deg2time] and [time2deg]; both carry the literal period 90. *)
Definition deg2time (angle : Q) : Q := 90.0 / 360 * angle.
Definition time2deg (time : Q) : Q := time / 90.0 * 360.

Section Solar.

(** [sind angle] stands for [np.sin (np.deg2rad (angle))]. *)
Variable sind : Q -> Q.

Definition Psolar (cfg : Config) (angle : Q) : Q :=
  if Qltb 0 (sind angle) then Pmax cfg * sind angle else 0.

Definition Psun (cfg : Config) (angles : list Q) : list Q :=
  map (Psolar cfg) angles.

End Solar.

(** ** Power consumption *)

Definition Pidle (cfg : Config) : Q :=
  gps_idle cfg + mcu_idle cfg + imu_idle cfg + rxtx_idle cfg + cam_idle cfg
  + ac_idle cfg + env_idle cfg.

Definition P_rxtx (cfg : Config) : Q := 200 - rxtx_idle cfg.
Definition end_rxtx (cfg : Config) : Q := start_rxtx cfg + time2deg (T_rxtx cfg).
Definition P_cam (cfg : Config) : Q := 60 - cam_idle cfg.
Definition P_ac (cfg : Config) : Q := 66 - ac_idle cfg.

(** The three inner conditions of the consumption loop, at one angle. *)
Definition cam_window (cfg : Config) (a : Q) : bool :=
  Qle_bool (start_cam cfg) (py_mod a (f_cam cfg))
  && Qltb (py_mod a (f_cam cfg)) (time2deg (T_cam cfg))
  && Qle_bool (start_cam cfg) a
  && Qltb a (end_cam cfg).

Definition rxtx_window (cfg : Config) (a : Q) : bool :=
  Qle_bool (start_rxtx cfg) (py_mod a (f_rxtx cfg))
  && Qltb (py_mod a (f_rxtx cfg)) (end_rxtx cfg)
  && Qle_bool (start_rxtx cfg) a
  && Qltb a (end_rxtx cfg).

Definition ac_window (cfg : Config) (a : Q) : bool :=
  Qle_bool (start_ac cfg) (py_mod a (f_ac cfg))
  && Qltb (py_mod a (f_ac cfg)) (time2deg (T_ac cfg)).

(** One iteration of the loop [for i in range(0, len(angles))] that fills
    [Pactive] in place. *)
Definition Pactive_body (cfg : Config) (angles : list Q)
    (Pactive : list Q) (i : nat) : list Q :=
  let Pactive :=
    if cam_active cfg then
      if cam_window cfg (nth i angles 0)
      then set_item Pactive i (nth i Pactive 0 + P_cam cfg) else Pactive
    else Pactive in
  let Pactive :=
    if rxtx_active cfg then
      if rxtx_window cfg (nth i angles 0)
      then set_item Pactive i (nth i Pactive 0 + P_rxtx cfg) else Pactive
    else Pactive in
  let Pactive :=
    if AC_active cfg then
      if ac_window cfg (nth i angles 0)
      then set_item Pactive i (nth i Pactive 0 + P_ac cfg) else Pactive
    else Pactive in
  Pactive.

(** [Pactive = np.zeros (len (angles))] followed by the loop. *)
Definition Pactive (cfg : Config) (angles : list Q) : list Q :=
  fold_left (Pactive_body cfg angles) (seq 0 (length angles))
    (repeat 0 (length angles)).

(** [Ptotal = Pidle + Pactive] (the scalar is added to every entry). *)
Definition Ptotal (cfg : Config) (angles : list Q) : list Q :=
  map (fun p => Pidle cfg + p) (Pactive cfg angles).

(** What the loop leaves in [Pactive[i]], as a function of the angle. *)
Definition Pactive_at (cfg : Config) (a : Q) : Q :=
  let p := 0 in
  let p := if cam_active cfg && cam_window cfg a then p + P_cam cfg else p in
  let p := if rxtx_active cfg && rxtx_window cfg a then p + P_rxtx cfg else p in
  let p := if AC_active cfg && ac_window cfg a then p + P_ac cfg else p in
  p.

(** The value an iteration leaves at its own index, from the value found
    there: the three additions in the order of the script. *)
Definition add_loads (cfg : Config) (a p : Q) : Q :=
  let p := if cam_active cfg && cam_window cfg a then p + P_cam cfg else p in
  let p := if rxtx_active cfg && rxtx_window cfg a then p + P_rxtx cfg else p in
  let p := if AC_active cfg && ac_window cfg a then p + P_ac cfg else p in
  p.

Definition Ptotal_at (cfg : Config) (a : Q) : Q := Pidle cfg + Pactive_at cfg a.

(** ** Battery charging cycle *)

(** The constants computed before the loop (lines 126-132). *)
Record Battery := mkBattery {
  Cmaxmin : Q;           (* mAmin, capacity in minutes *)
  I_charge : Q;          (* mA, charging current *)
  Pcharge : Q            (* mW, charging power *)
}.

(** [I_charge = Cmax / charging_speed] divides two Python numbers and raises
    [ZeroDivisionError] on a zero charging speed: the failure modelled
    here.  The [OverflowError] of an integer capacity beyond the range of
    doubles is not modelled. *)
Definition battery_constants (cfg : Config) : option Battery :=
  let Cmaxmin := Cmax cfg * 60.0 in
  match py_div (Cmax cfg) (charging_speed cfg) with
  | None => None
  | Some I_charge =>
      Some {| Cmaxmin := Cmaxmin;
              I_charge := I_charge;
              Pcharge := U_bat cfg * I_charge |}
  end.

(** The constants when the division succeeds. *)
Definition battery_of (cfg : Config) : Battery :=
  {| Cmaxmin := Cmax cfg * 60.0;
     I_charge := Cmax cfg / charging_speed cfg;
     Pcharge := U_bat cfg * (Cmax cfg / charging_speed cfg) |}.

(** The variables the loop updates: the charge [Cnew] and the three series. *)
Record State := mkState {
  Cnew : Q;              (* mAmin, current battery charge *)
  C : list Q;
  I : list Q;
  level : list Q
}.

(** [Cnew = 0.5 * Cmaxmin; C = []; I = []; level = []]. *)
Definition initial_state (bat : Battery) : State :=
  {| Cnew := 0.5 * Cmaxmin bat; C := []; I := []; level := [] |}.

Section Battery_loop.

Variable sind : Q -> Q.

(** One iteration of the battery loop (lines 139-167).  The loop reads
    [angles[i]] and [Ptotal[i]] inside both arrays; [nth] with a default
    stands for the indexing.  The divisions by [U_bat] and by [Cmaxmin] are
    total here; the statements about currents take a positive voltage where
    they need one, and none is about the value of a level entry. *)
Definition battery_body (cfg : Config) (bat : Battery)
    (angles Ptotal : list Q) (st : State) (i : nat) : State :=
  let angle := nth i angles 0 in
  if Qltb (Cmaxmin bat) (Cnew st) then
    {| Cnew := Cnew st;
       C := C st ++ [Cmaxmin bat];
       I := I st ++ [0];
       level := level st |}
  else if Qltb (nth i Ptotal 0 + Pcharge bat) (Psolar sind cfg angle) then
    let Pavail := Psolar sind cfg angle - nth i Ptotal 0 in
    if Qle_bool (I_charge bat) (Pavail / U_bat cfg) then
      let Cnew' := Cnew st + I_charge bat * (T cfg / 360.0 * step cfg) in
      {| Cnew := Cnew';
         C := C st ++ [Cnew'];
         I := I st ++ [I_charge bat];
         level := level st ++ [(Cnew' / Cmaxmin bat) * 100] |}
    else
      let I_charge_reduced := Pavail / U_bat cfg in
      let Cnew' := Cnew st + I_charge_reduced * (T cfg / 360.0 * step cfg) in
      {| Cnew := Cnew';
         C := C st ++ [Cnew'];
         I := I st ++ [I_charge_reduced];
         level := level st ++ [(Cnew' / Cmaxmin bat) * 100] |}
  else
    let Pleft := nth i Ptotal 0 - Psolar sind cfg angle in
    let I_discharge := Pleft / U_bat cfg in
    let Cnew' := Cnew st - I_discharge * (T cfg / 360.0 * step cfg) in
    {| Cnew := Cnew';
       C := C st ++ [Cnew'];
       I := I st ++ [- I_discharge];
       level := level st ++ [(Cnew' / Cmaxmin bat) * 100] |}.

(** The state after the iterations [i = 0 .. n-1], from state [st]. *)
Definition battery_loop_from (cfg : Config) (bat : Battery)
    (angles Ptotal : list Q) (st : State) (n : nat) : State :=
  fold_left (battery_body cfg bat angles Ptotal) (seq 0 n) st.

(** [for i in range(0, len(angles))] from the initial state. *)
Definition battery_loop (cfg : Config) (bat : Battery) (angles : list Q)
    : State :=
  battery_loop_from cfg bat angles (Ptotal cfg angles) (initial_state bat)
    (length angles).

(** The script up to the plots: the sweep, the constants, the loop. *)
Definition simulate (cfg : Config) : option State :=
  match angles cfg with
  | None => None
  | Some angs =>
      match battery_constants cfg with
      | None => None
      | Some bat => Some (battery_loop cfg bat angs)
      end
  end.

End Battery_loop.

(** ** A rational sine for the worked examples

    Bhaskara's formula [4x(180-x) / (40500 - x(180-x))] on [0, 180], extended
    by symmetry; it equals the sine at every multiple of 90 degrees and at
    30 and 150 degrees, the only angles the examples visit. *)
Definition sind_table (angle : Q) : Q :=
  let x := py_mod angle 360 in
  if Qltb x 180 then 4 * x * (180 - x) / (40500 - x * (180 - x))
  else
    let y := x - 180 in
    - (4 * y * (180 - y) / (40500 - y * (180 - y))).

(** Configurations with a sweep of a few steps. *)

(** A quarter-orbit step, a large panel and a fast charger: the battery
    fills up during the sweep. *)
Definition filling_config : Config :=
  set_step 90 (set_Pmax 2000 (set_charging_speed 0.5 source_config)).


(** A step of 30 degrees with the periodic consumers switched off. *)
Definition idle_config : Config :=
  set_step 30 (set_switches false false false source_config).

(** The quarter-orbit sweep with a negative capacity, and with a negative
    battery voltage. *)
Definition negative_capacity_config : Config :=
  set_step 90 (set_Cmax (-200) source_config).

Definition negative_voltage_config : Config :=
  set_step 90 (set_U_bat (-3.7) source_config).


(** The largest double, and the constants of a configuration within the
    range of doubles.  Beyond it an integer constant raises [OverflowError]
    where the script first multiplies or divides it by a float (an integer
    capacity at [Cmax * 60.0], line 127); the model has no such failure, and
    the statement about what construction accepts is made within the
    range. *)
Definition double_max : Q := inject_Z (2 ^ 1024 - 2 ^ 971).

Definition in_double_range (x : Q) : Prop := - double_max <= x /\ x <= double_max.

Definition finite_config (cfg : Config) : Prop :=
  Forall in_double_range
    [T cfg; Pmax cfg; step cfg;
     gps_idle cfg; mcu_idle cfg; imu_idle cfg; rxtx_idle cfg; cam_idle cfg;
     ac_idle cfg; env_idle cfg;
     T_rxtx cfg; start_rxtx cfg; f_rxtx cfg;
     T_cam cfg; start_cam cfg; end_cam cfg; f_cam cfg;
     T_ac cfg; start_ac cfg; f_ac cfg;
     Cmax cfg * 60.0; charging_speed cfg; U_bat cfg].

(** ** Basic facts *)

Lemma Qltb_lt (x y : Q) : Qltb x y = true <-> x < y.
Proof.
  unfold Qltb. rewrite negb_true_iff.
  split; intro H.
  - apply Qnot_le_lt. intro Hle. apply Qle_bool_iff in Hle. congruence.
  - destruct (Qle_bool y x) eqn:E; [|reflexivity].
    apply Qle_bool_iff in E. exfalso. apply (Qlt_not_le _ _ H E).
Qed.

Lemma Qltb_ge (x y : Q) : Qltb x y = false <-> y <= x.
Proof.
  unfold Qltb. rewrite negb_false_iff. apply Qle_bool_iff.
Qed.

Lemma Qle_bool_gt (x y : Q) : Qle_bool x y = false <-> y < x.
Proof.
  rewrite <- Qltb_lt. unfold Qltb. rewrite negb_true_iff. reflexivity.
Qed.

Lemma Qle_bool_comp (x x' y y' : Q) :
  x == x' -> y == y' -> Qle_bool x y = Qle_bool x' y'.
Proof.
  intros Hx Hy.
  destruct (Qle_bool x y) eqn:E, (Qle_bool x' y') eqn:E'; try reflexivity.
  - apply Qle_bool_iff in E. rewrite Hx, Hy in E.
    apply Qle_bool_iff in E. congruence.
  - apply Qle_bool_iff in E'. rewrite <- Hx, <- Hy in E'.
    apply Qle_bool_iff in E'. congruence.
Qed.

Lemma Qltb_comp (x x' y y' : Q) :
  x == x' -> y == y' -> Qltb x y = Qltb x' y'.
Proof.
  intros Hx Hy. unfold Qltb. f_equal. apply Qle_bool_comp; assumption.
Qed.

Lemma Qfloor_unique (x : Q) (n : Z) :
  inject_Z n <= x -> x < inject_Z (n + 1) -> Qfloor x = n.
Proof.
  intros Hlo Hhi.
  pose proof (Qfloor_le x) as Fl. pose proof (Qlt_floor x) as Fh.
  assert (n < Qfloor x + 1)%Z
    by (rewrite Zlt_Qlt; eapply Qle_lt_trans; eassumption).
  assert (Qfloor x < n + 1)%Z
    by (rewrite Zlt_Qlt; eapply Qle_lt_trans; eassumption).
  lia.
Qed.

Lemma Qfloor_succ (x : Q) : Qfloor (x + 1) = (Qfloor x + 1)%Z.
Proof.
  pose proof (Qfloor_le x) as Fl. pose proof (Qlt_floor x) as Fh.
  rewrite inject_Z_plus in Fh. change (inject_Z 1) with 1 in Fh.
  apply Qfloor_unique.
  - rewrite inject_Z_plus. change (inject_Z 1) with 1. lra.
  - rewrite !inject_Z_plus. change (inject_Z 1) with 1. lra.
Qed.

Lemma py_mod_comp (x x' f : Q) : x == x' -> py_mod x f == py_mod x' f.
Proof.
  intro H. unfold py_mod.
  assert (E : Qfloor (x / f) = Qfloor (x' / f))
    by (apply Qfloor_comp; rewrite H; reflexivity).
  rewrite E, H. reflexivity.
Qed.

(** For a positive period the phase lies in [[0, f)]. *)
Lemma py_mod_range (x f : Q) : 0 < f -> 0 <= py_mod x f /\ py_mod x f < f.
Proof.
  intro Hf. unfold py_mod.
  pose proof (Qfloor_le (x / f)) as Fl. pose proof (Qlt_floor (x / f)) as Fh.
  rewrite inject_Z_plus in Fh. change (inject_Z 1) with 1 in Fh.
  set (k := inject_Z (Qfloor (x / f))) in *.
  assert (Ex : x == x / f * f) by (field; lra).
  set (q := x / f) in *.
  split.
  - assert (0 <= (q - k) * f) by (apply Qmult_le_0_compat; lra). lra.
  - assert (0 < (k + 1 - q) * f) by (apply Qmult_lt_0_compat; lra). lra.
Qed.

(** The phase is periodic. *)
Lemma py_mod_period (x f : Q) : ~ f == 0 -> py_mod (x + f) f == py_mod x f.
Proof.
  intro Hf. unfold py_mod.
  assert (E : Qfloor ((x + f) / f) = (Qfloor (x / f) + 1)%Z).
  { rewrite <- Qfloor_succ. apply Qfloor_comp. field. exact Hf. }
  rewrite E, inject_Z_plus. change (inject_Z 1) with 1. ring.
Qed.

(** ** The consumption loop *)

Lemma length_set_item (l : list Q) (i : nat) (v : Q) :
  length (set_item l i v) = length l.
Proof.
  revert i; induction l as [|h t IH]; intros [|i]; simpl; auto.
Qed.

Lemma nth_set_item_same (l : list Q) (i : nat) (v d : Q) :
  (i < length l)%nat -> nth i (set_item l i v) d = v.
Proof.
  revert i; induction l as [|h t IH]; intros [|i] Hi; simpl in *;
    try lia; auto.
  apply IH. lia.
Qed.

Lemma nth_set_item_other (l : list Q) (i j : nat) (v d : Q) :
  i <> j -> nth j (set_item l i v) d = nth j l d.
Proof.
  revert i j; induction l as [|h t IH]; intros [|i] [|j] Hij; simpl;
    try reflexivity; try congruence.
  apply IH. congruence.
Qed.

Lemma Pactive_at_add_loads (cfg : Config) (a : Q) :
  Pactive_at cfg a = add_loads cfg a 0.
Proof. reflexivity. Qed.

Lemma length_Pactive_body cfg angs L i :
  length (Pactive_body cfg angs L i) = length L.
Proof.
  unfold Pactive_body.
  destruct (cam_active cfg), (cam_window cfg (nth i angs 0)),
    (rxtx_active cfg), (rxtx_window cfg (nth i angs 0)),
    (AC_active cfg), (ac_window cfg (nth i angs 0));
    rewrite ?length_set_item; reflexivity.
Qed.

Lemma nth_Pactive_body_other cfg angs L i j :
  i <> j -> nth j (Pactive_body cfg angs L i) 0 = nth j L 0.
Proof.
  intro Hij. unfold Pactive_body.
  destruct (cam_active cfg), (cam_window cfg (nth i angs 0)),
    (rxtx_active cfg), (rxtx_window cfg (nth i angs 0)),
    (AC_active cfg), (ac_window cfg (nth i angs 0));
    rewrite ?nth_set_item_other by assumption; reflexivity.
Qed.

Lemma nth_Pactive_body_same cfg angs L i :
  (i < length L)%nat ->
  nth i (Pactive_body cfg angs L i) 0
  = add_loads cfg (nth i angs 0) (nth i L 0).
Proof.
  intro Hi. unfold Pactive_body, add_loads.
  destruct (cam_active cfg), (cam_window cfg (nth i angs 0)),
    (rxtx_active cfg), (rxtx_window cfg (nth i angs 0)),
    (AC_active cfg), (ac_window cfg (nth i angs 0)); simpl;
    repeat (rewrite nth_set_item_same by (rewrite ?length_set_item; exact Hi));
    reflexivity.
Qed.

(** After the iterations [0 .. k-1] the entries below [k] are final and the
    others still hold the zero of [np.zeros]. *)
Lemma Pactive_prefix cfg angs n k :
  let L := fold_left (Pactive_body cfg angs) (seq 0 k) (repeat 0 n) in
  (k <= n)%nat ->
  length L = n
  /\ (forall j, (j < k)%nat -> nth j L 0 = Pactive_at cfg (nth j angs 0))
  /\ (forall j, (k <= j)%nat -> nth j L 0 = 0).
Proof.
  induction k as [|k IH]; intros L Hk.
  - subst L; simpl. split; [apply repeat_length|]. split; [intros; lia|].
    intros j _. destruct (Nat.lt_ge_cases j n) as [Hj|Hj].
    + apply nth_repeat_lt. exact Hj.
    + apply nth_overflow. rewrite repeat_length. exact Hj.
  - subst L. rewrite seq_S, fold_left_app. simpl.
    destruct IH as (Hlen & Hlo & Hhi); [lia|].
    set (L := fold_left (Pactive_body cfg angs) (seq 0 k) (repeat 0 n)) in *.
    split; [rewrite length_Pactive_body; exact Hlen|]. split.
    + intros j Hj. destruct (Nat.eq_dec k j) as [->|Hne].
      * rewrite nth_Pactive_body_same by lia.
        rewrite Hhi by lia. reflexivity.
      * rewrite nth_Pactive_body_other by exact Hne. apply Hlo. lia.
    + intros j Hj. rewrite nth_Pactive_body_other by lia. apply Hhi. lia.
Qed.

Lemma length_Pactive cfg angs : length (Pactive cfg angs) = length angs.
Proof.
  unfold Pactive.
  apply (Pactive_prefix cfg angs (length angs) (length angs)). lia.
Qed.

Lemma nth_Pactive cfg angs i :
  (i < length angs)%nat ->
  nth i (Pactive cfg angs) 0 = Pactive_at cfg (nth i angs 0).
Proof.
  intro Hi. unfold Pactive.
  apply (Pactive_prefix cfg angs (length angs) (length angs)); lia.
Qed.

Lemma length_Ptotal cfg angs : length (Ptotal cfg angs) = length angs.
Proof. unfold Ptotal. rewrite length_map. apply length_Pactive. Qed.

(** Entry [i] of [Ptotal] is the total consumption at the angle [angles[i]]. *)
Lemma nth_Ptotal cfg angs i :
  (i < length angs)%nat ->
  nth i (Ptotal cfg angs) 0 = Ptotal_at cfg (nth i angs 0).
Proof.
  intro Hi. unfold Ptotal, Ptotal_at.
  rewrite (nth_indep _ 0 (Pidle cfg + 0))
    by (rewrite length_map, length_Pactive; exact Hi).
  rewrite (map_nth (fun p => Pidle cfg + p)).
  rewrite nth_Pactive by exact Hi. reflexivity.
Qed.

(** The three windows, as the inequalities they test. *)
Lemma cam_window_spec cfg a :
  cam_window cfg a = true <->
  (start_cam cfg <= py_mod a (f_cam cfg)
   /\ py_mod a (f_cam cfg) < time2deg (T_cam cfg))
  /\ (start_cam cfg <= a /\ a < end_cam cfg).
Proof.
  unfold cam_window. rewrite !andb_true_iff, !Qle_bool_iff, !Qltb_lt. tauto.
Qed.

Lemma rxtx_window_spec cfg a :
  rxtx_window cfg a = true <->
  (start_rxtx cfg <= py_mod a (f_rxtx cfg)
   /\ py_mod a (f_rxtx cfg) < end_rxtx cfg)
  /\ (start_rxtx cfg <= a /\ a < end_rxtx cfg).
Proof.
  unfold rxtx_window. rewrite !andb_true_iff, !Qle_bool_iff, !Qltb_lt. tauto.
Qed.

Lemma ac_window_spec cfg a :
  ac_window cfg a = true <->
  start_ac cfg <= py_mod a (f_ac cfg)
  /\ py_mod a (f_ac cfg) < time2deg (T_ac cfg).
Proof.
  unfold ac_window. rewrite !andb_true_iff, !Qle_bool_iff, !Qltb_lt. tauto.
Qed.

(** Switching a consumer off is the same as its window being closed. *)
Lemma Ptotal_at_cam_closed cfg a :
  cam_window cfg a = false ->
  Ptotal_at cfg a
  = Ptotal_at (set_switches (rxtx_active cfg) false (AC_active cfg) cfg) a.
Proof.
  intro H. unfold Ptotal_at, Pactive_at.
  change (cam_window (set_switches (rxtx_active cfg) false (AC_active cfg) cfg) a)
    with (cam_window cfg a).
  rewrite H, andb_false_r. reflexivity.
Qed.

Lemma Ptotal_at_rxtx_closed cfg a :
  rxtx_window cfg a = false ->
  Ptotal_at cfg a
  = Ptotal_at (set_switches false (cam_active cfg) (AC_active cfg) cfg) a.
Proof.
  intro H. unfold Ptotal_at, Pactive_at.
  change (rxtx_window (set_switches false (cam_active cfg) (AC_active cfg) cfg) a)
    with (rxtx_window cfg a).
  rewrite H, andb_false_r. reflexivity.
Qed.

Lemma Ptotal_at_ac_closed cfg a :
  ac_window cfg a = false ->
  Ptotal_at cfg a
  = Ptotal_at (set_switches (rxtx_active cfg) (cam_active cfg) false cfg) a.
Proof.
  intro H. unfold Ptotal_at, Pactive_at.
  change (ac_window (set_switches (rxtx_active cfg) (cam_active cfg) false cfg) a)
    with (ac_window cfg a).
  rewrite H, andb_false_r. reflexivity.
Qed.

Lemma Ptotal_at_ac_open cfg a :
  AC_active cfg = true -> ac_window cfg a = true ->
  Ptotal_at cfg a
  == Ptotal_at (set_switches (rxtx_active cfg) (cam_active cfg) false cfg) a
     + P_ac cfg.
Proof.
  intros Hact H. unfold Ptotal_at, Pactive_at.
  change (ac_window (set_switches (rxtx_active cfg) (cam_active cfg) false cfg) a)
    with (ac_window cfg a).
  rewrite H, Hact.
  change (cam_active (set_switches (rxtx_active cfg) (cam_active cfg) false cfg))
    with (cam_active cfg).
  change (rxtx_active (set_switches (rxtx_active cfg) (cam_active cfg) false cfg))
    with (rxtx_active cfg).
  change (cam_window (set_switches (rxtx_active cfg) (cam_active cfg) false cfg) a)
    with (cam_window cfg a).
  change (rxtx_window (set_switches (rxtx_active cfg) (cam_active cfg) false cfg) a)
    with (rxtx_window cfg a).
  change (AC_active (set_switches (rxtx_active cfg) (cam_active cfg) false cfg))
    with false.
  change (Pidle (set_switches (rxtx_active cfg) (cam_active cfg) false cfg))
    with (Pidle cfg).
  change (P_cam (set_switches (rxtx_active cfg) (cam_active cfg) false cfg))
    with (P_cam cfg).
  change (P_rxtx (set_switches (rxtx_active cfg) (cam_active cfg) false cfg))
    with (P_rxtx cfg).
  cbv zeta. rewrite andb_true_l, andb_false_l. ring.
Qed.

Lemma time2deg_1 : time2deg 1 == 4.
Proof. reflexivity. Qed.

(** With the constants of the script the attitude correction is on exactly
    when the phase modulo 10 is below 4. *)
Lemma ac_window_phase cfg a :
  start_ac cfg = 0 -> f_ac cfg = 10 -> T_ac cfg = 1 ->
  ac_window cfg a = true <-> 0 <= py_mod a 10 /\ py_mod a 10 < 4.
Proof.
  intros Hs Hf Ht. rewrite ac_window_spec, Hs, Hf, Ht, time2deg_1.
  reflexivity.
Qed.

Lemma ac_window_recurs cfg a :
  ~ f_ac cfg == 0 -> ac_window cfg (a + f_ac cfg) = ac_window cfg a.
Proof.
  intro Hf. unfold ac_window.
  pose proof (py_mod_period a (f_ac cfg) Hf) as E.
  f_equal.
  - apply Qle_bool_comp; [reflexivity | exact E].
  - apply Qltb_comp; [exact E | reflexivity].
Qed.

(** ** Properties of the consumption profile *)

(** C7: at an angle of the sweep equal to the end angle of the camera or of
    the transceiver, and at a phase equal to the end of a duty window, the
    total consumption is the one with that consumer switched off; each
    window holds exactly when start <= value < end, for the phase and for
    the angle. *)
Theorem end_angle_exclusive (cfg : Config) (angs : list Q) (i : nat) :
  (i < length angs)%nat ->
  let a := nth i angs 0 in
  let no_cam := set_switches (rxtx_active cfg) false (AC_active cfg) cfg in
  let no_rxtx := set_switches false (cam_active cfg) (AC_active cfg) cfg in
  let no_ac := set_switches (rxtx_active cfg) (cam_active cfg) false cfg in
  (a == end_cam cfg ->
   nth i (Ptotal cfg angs) 0 = nth i (Ptotal no_cam angs) 0)
  /\ (a == end_rxtx cfg ->
      nth i (Ptotal cfg angs) 0 = nth i (Ptotal no_rxtx angs) 0)
  /\ (py_mod a (f_cam cfg) == time2deg (T_cam cfg) ->
      nth i (Ptotal cfg angs) 0 = nth i (Ptotal no_cam angs) 0)
  /\ (py_mod a (f_rxtx cfg) == end_rxtx cfg ->
      nth i (Ptotal cfg angs) 0 = nth i (Ptotal no_rxtx angs) 0)
  /\ (py_mod a (f_ac cfg) == time2deg (T_ac cfg) ->
      nth i (Ptotal cfg angs) 0 = nth i (Ptotal no_ac angs) 0)
  /\ (cam_window cfg a = true <->
      (start_cam cfg <= py_mod a (f_cam cfg)
       /\ py_mod a (f_cam cfg) < time2deg (T_cam cfg))
      /\ (start_cam cfg <= a /\ a < end_cam cfg))
  /\ (rxtx_window cfg a = true <->
      (start_rxtx cfg <= py_mod a (f_rxtx cfg)
       /\ py_mod a (f_rxtx cfg) < end_rxtx cfg)
      /\ (start_rxtx cfg <= a /\ a < end_rxtx cfg))
  /\ (ac_window cfg a = true <->
      start_ac cfg <= py_mod a (f_ac cfg)
      /\ py_mod a (f_ac cfg) < time2deg (T_ac cfg)).
Proof.
  intros Hi a no_cam no_rxtx no_ac.
  rewrite !nth_Ptotal by exact Hi. fold a.
  assert (closed : forall w : bool, ~ (w = true) -> w = false)
    by (intros [|] Hw; [exfalso; apply Hw|]; reflexivity).
  refine (conj _ (conj _ (conj _ (conj _ (conj _ (conj _ (conj _ _))))))).
  - intro E. apply Ptotal_at_cam_closed, closed.
    rewrite cam_window_spec. lra.
  - intro E. apply Ptotal_at_rxtx_closed, closed.
    rewrite rxtx_window_spec. lra.
  - intro E. apply Ptotal_at_cam_closed, closed.
    rewrite cam_window_spec. lra.
  - intro E. apply Ptotal_at_rxtx_closed, closed.
    rewrite rxtx_window_spec. lra.
  - intro E. apply Ptotal_at_ac_closed, closed.
    rewrite ac_window_spec. lra.
  - apply cam_window_spec.
  - apply rxtx_window_spec.
  - apply ac_window_spec.
Qed.

(** C9: with the constants of the script (start 0, period 10 degrees,
    duration 1 minute, that is 4 degrees), the switched-on attitude
    correction adds its peak power to the total consumption at an angle of
    the sweep exactly when the angle modulo 10 lies in [0, 4); the phase
    always lies in [0, 10) and the window recurs with period 10, with no
    bound on the angle itself. *)
Theorem ac_phase_gated (cfg : Config) (angs : list Q) (i : nat) :
  AC_active cfg = true ->
  start_ac cfg = 0 -> f_ac cfg = 10 -> T_ac cfg = 1 ->
  (i < length angs)%nat ->
  let a := nth i angs 0 in
  let no_ac := set_switches (rxtx_active cfg) (cam_active cfg) false cfg in
  (0 <= py_mod a 10 /\ py_mod a 10 < 4 ->
   nth i (Ptotal cfg angs) 0 == nth i (Ptotal no_ac angs) 0 + P_ac cfg)
  /\ (~ (0 <= py_mod a 10 /\ py_mod a 10 < 4) ->
      nth i (Ptotal cfg angs) 0 = nth i (Ptotal no_ac angs) 0)
  /\ (ac_window cfg a = true <-> 0 <= py_mod a 10 /\ py_mod a 10 < 4)
  /\ (0 <= py_mod a 10 /\ py_mod a 10 < 10)
  /\ (forall b : Q, ac_window cfg (b + 10) = ac_window cfg b).
Proof.
  intros Hact Hs Hf Ht Hi a no_ac.
  rewrite !nth_Ptotal by exact Hi. fold a.
  pose proof (ac_window_phase cfg a Hs Hf Ht) as Hw.
  split; [|split; [|split; [|split]]].
  - intro Hin. apply Ptotal_at_ac_open; [exact Hact | apply Hw; exact Hin].
  - intro Hout. apply Ptotal_at_ac_closed.
    destruct (ac_window cfg a); [exfalso; apply Hout, Hw|]; reflexivity.
  - exact Hw.
  - apply py_mod_range. reflexivity.
  - intro b. rewrite <- Hf. apply ac_window_recurs. rewrite Hf. discriminate.
Qed.

(** ** The battery loop *)

Lemma battery_constants_some cfg bat :
  battery_constants cfg = Some bat ->
  ~ charging_speed cfg == 0
  /\ Cmaxmin bat = Cmax cfg * 60.0
  /\ I_charge bat = Cmax cfg / charging_speed cfg
  /\ Pcharge bat = U_bat cfg * I_charge bat.
Proof.
  unfold battery_constants, py_div.
  destruct (Qeq_bool (charging_speed cfg) 0) eqn:E; [discriminate|].
  intro H. injection H as <-. simpl.
  split; [|auto]. intro Hz. apply Qeq_bool_iff in Hz. congruence.
Qed.

Section Battery_facts.

Variable sind : Q -> Q.
Variable cfg : Config.
Variable bat : Battery.
Variables angs Ptot : list Q.

Local Abbreviation body := (battery_body sind cfg bat angs Ptot).
Local Abbreviation dt := (T cfg / 360.0 * step cfg).

(** The four branches of the body. *)
Lemma body_saturated st i :
  Cmaxmin bat < Cnew st ->
  body st i = {| Cnew := Cnew st;
                 C := C st ++ [Cmaxmin bat];
                 I := I st ++ [0];
                 level := level st |}.
Proof.
  intro H. unfold battery_body. apply Qltb_lt in H. rewrite H. reflexivity.
Qed.

Lemma body_full_rate st i :
  ~ Cmaxmin bat < Cnew st ->
  nth i Ptot 0 + Pcharge bat < Psolar sind cfg (nth i angs 0) ->
  I_charge bat <= (Psolar sind cfg (nth i angs 0) - nth i Ptot 0) / U_bat cfg ->
  let Cnew' := Cnew st + I_charge bat * dt in
  body st i = {| Cnew := Cnew';
                 C := C st ++ [Cnew'];
                 I := I st ++ [I_charge bat];
                 level := level st ++ [(Cnew' / Cmaxmin bat) * 100] |}.
Proof.
  intros Hs Hp Hi. unfold battery_body.
  destruct (Qltb (Cmaxmin bat) (Cnew st)) eqn:E;
    [apply Qltb_lt in E; contradiction|].
  apply Qltb_lt in Hp. rewrite Hp.
  apply Qle_bool_iff in Hi. rewrite Hi. reflexivity.
Qed.

Lemma body_reduced_rate st i :
  ~ Cmaxmin bat < Cnew st ->
  nth i Ptot 0 + Pcharge bat < Psolar sind cfg (nth i angs 0) ->
  ~ I_charge bat <= (Psolar sind cfg (nth i angs 0) - nth i Ptot 0) / U_bat cfg ->
  let I_charge_reduced :=
    (Psolar sind cfg (nth i angs 0) - nth i Ptot 0) / U_bat cfg in
  let Cnew' := Cnew st + I_charge_reduced * dt in
  body st i = {| Cnew := Cnew';
                 C := C st ++ [Cnew'];
                 I := I st ++ [I_charge_reduced];
                 level := level st ++ [(Cnew' / Cmaxmin bat) * 100] |}.
Proof.
  intros Hs Hp Hi. unfold battery_body.
  destruct (Qltb (Cmaxmin bat) (Cnew st)) eqn:E;
    [apply Qltb_lt in E; contradiction|].
  apply Qltb_lt in Hp. rewrite Hp.
  destruct (Qle_bool (I_charge bat)
              ((Psolar sind cfg (nth i angs 0) - nth i Ptot 0) / U_bat cfg))
    eqn:E'; [apply Qle_bool_iff in E'; contradiction|].
  reflexivity.
Qed.

Lemma body_deficit st i :
  ~ Cmaxmin bat < Cnew st ->
  ~ nth i Ptot 0 + Pcharge bat < Psolar sind cfg (nth i angs 0) ->
  let I_discharge :=
    (nth i Ptot 0 - Psolar sind cfg (nth i angs 0)) / U_bat cfg in
  let Cnew' := Cnew st - I_discharge * dt in
  body st i = {| Cnew := Cnew';
                 C := C st ++ [Cnew'];
                 I := I st ++ [- I_discharge];
                 level := level st ++ [(Cnew' / Cmaxmin bat) * 100] |}.
Proof.
  intros Hs Hp. unfold battery_body.
  destruct (Qltb (Cmaxmin bat) (Cnew st)) eqn:E;
    [apply Qltb_lt in E; contradiction|].
  destruct (Qltb (nth i Ptot 0 + Pcharge bat) (Psolar sind cfg (nth i angs 0)))
    eqn:E'; [apply Qltb_lt in E'; contradiction|].
  reflexivity.
Qed.

(** Every iteration appends one entry to [C] and to [I]; it appends one to
    [level] unless it takes the saturated branch. *)
Lemma body_lengths st i :
  length (C (body st i)) = S (length (C st))
  /\ length (I (body st i)) = S (length (I st))
  /\ length (level (body st i))
     = if Qltb (Cmaxmin bat) (Cnew st) then length (level st)
       else S (length (level st)).
Proof.
  unfold battery_body.
  destruct (Qltb (Cmaxmin bat) (Cnew st));
    [|destruct (Qltb _ _); [destruct (Qle_bool _ _)|]];
    simpl; rewrite ?length_app; simpl; repeat split; lia.
Qed.

Lemma loop_lengths idxs st :
  let st' := fold_left body idxs st in
  length (C st') = (length (C st) + length idxs)%nat
  /\ length (I st') = (length (I st) + length idxs)%nat
  /\ (length (level st') <= length (level st) + length idxs)%nat.
Proof.
  revert st. induction idxs as [|i idxs IH]; intro st; simpl.
  - repeat split; lia.
  - destruct (IH (body st i)) as (HC & HI & HL).
    destruct (body_lengths st i) as (BC & BI & BL).
    rewrite HC, HI, BC, BI. repeat split; try lia.
    destruct (Qltb (Cmaxmin bat) (Cnew st)); lia.
Qed.

(** Once the charge is above the capacity the loop never changes it again:
    every later iteration takes the saturated branch. *)
Lemma saturated_latch idxs st :
  Cmaxmin bat < Cnew st ->
  let st' := fold_left body idxs st in
  Cnew st' = Cnew st
  /\ C st' = C st ++ repeat (Cmaxmin bat) (length idxs)
  /\ I st' = I st ++ repeat 0 (length idxs)
  /\ level st' = level st.
Proof.
  revert st. induction idxs as [|i idxs IH]; intros st Hs; simpl.
  - rewrite !app_nil_r. auto.
  - rewrite (body_saturated st i Hs).
    destruct (IH {| Cnew := Cnew st; C := C st ++ [Cmaxmin bat];
                    I := I st ++ [0]; level := level st |} Hs)
      as (H1 & H2 & H3 & H4).
    rewrite H1, H2, H3, H4. simpl. rewrite <- !app_assoc. auto.
Qed.

End Battery_facts.

(** ** Properties of the battery loop *)

Section Battery_properties.

Variable sind : Q -> Q.

(** Over any sweep the series [C] and [I] get one entry per angle, and
    [level] at most one. *)
Lemma series_lengths cfg bat angs :
  let st := battery_loop sind cfg bat angs in
  length (C st) = length angs
  /\ length (I st) = length angs
  /\ (length (level st) <= length angs)%nat.
Proof.
  unfold battery_loop, battery_loop_from.
  pose proof (loop_lengths sind cfg bat angs (Ptotal cfg angs)
                (seq 0 (length angs)) (initial_state bat)) as H.
  simpl in H. rewrite length_seq in H. exact H.
Qed.

(** An iteration that finds the charge above the capacity leaves [level] as
    it is. *)
Lemma saturated_step_skips_level cfg bat angs Ptot st i :
  Cmaxmin bat < Cnew st ->
  level (battery_body sind cfg bat angs Ptot st i) = level st.
Proof.
  intro H. rewrite body_saturated by exact H. reflexivity.
Qed.

(** C4, as the code has it: an iteration that is neither saturated nor in
    surplus computes [Pleft = Ptotal[i] - Psolar(angle)], divides it by the
    battery voltage, takes that current times the step duration off the
    charge and records the negated current, the new charge and its level.
    With a positive voltage the recorded current is negative exactly when
    the consumption exceeds the solar power. *)
Theorem deficit_step cfg bat angs Ptot st i :
  ~ Cmaxmin bat < Cnew st ->
  ~ nth i Ptot 0 + Pcharge bat < Psolar sind cfg (nth i angs 0) ->
  let Pleft := nth i Ptot 0 - Psolar sind cfg (nth i angs 0) in
  let I_discharge := Pleft / U_bat cfg in
  let Cnew' := Cnew st - I_discharge * (T cfg / 360.0 * step cfg) in
  battery_body sind cfg bat angs Ptot st i
  = {| Cnew := Cnew';
       C := C st ++ [Cnew'];
       I := I st ++ [- I_discharge];
       level := level st ++ [(Cnew' / Cmaxmin bat) * 100] |}
  /\ (0 < U_bat cfg ->
      (- I_discharge < 0 <-> Psolar sind cfg (nth i angs 0) < nth i Ptot 0)).
Proof.
  intros Hs Hp Pleft I_discharge Cnew'. split.
  - apply body_deficit; assumption.
  - intro HU. subst I_discharge Pleft.
    set (ps := Psolar sind cfg (nth i angs 0)).
    set (pt := nth i Ptot 0).
    split; intro H.
    + assert (H0 : 0 < (pt - ps) / U_bat cfg) by lra.
      assert (E : pt - ps == (pt - ps) / U_bat cfg * U_bat cfg)
        by (field; lra).
      assert (0 < (pt - ps) / U_bat cfg * U_bat cfg)
        by (apply Qmult_lt_0_compat; assumption).
      lra.
    + assert (0 < (pt - ps) / U_bat cfg)
        by (apply Qlt_shift_div_l; lra).
      lra.
Qed.

(** In surplus the available current is above the charging current. *)
Lemma surplus_current cfg bat (ps pt : Q) :
  0 < U_bat cfg ->
  Pcharge bat = U_bat cfg * I_charge bat ->
  pt + Pcharge bat < ps ->
  I_charge bat < (ps - pt) / U_bat cfg.
Proof.
  intros HU HP Hp. apply Qlt_shift_div_l; [exact HU|]. rewrite HP in Hp. lra.
Qed.


(** C5: with capacity 200, voltage 3.7 and charging speed 5 (a charging
    current of 40), the capacity is 200 * 60 mAmin and the loop starts at
    half of it; an iteration that is not saturated and in surplus adds
    40 * (T / 360 * step) to the charge and records the current 40. *)
Theorem nominal_charge_step cfg bat angs Ptot st i :
  Cmax cfg = 200 -> U_bat cfg = 3.7 -> charging_speed cfg = 5.0 ->
  battery_constants cfg = Some bat ->
  ~ Cmaxmin bat < Cnew st ->
  nth i Ptot 0 + Pcharge bat < Psolar sind cfg (nth i angs 0) ->
  let st' := battery_body sind cfg bat angs Ptot st i in
  I_charge bat == 40
  /\ Cnew (initial_state bat) == 100 * 60
  /\ Cnew st' == Cnew st + 40 * (T cfg / 360 * step cfg)
  /\ C st' = C st ++ [Cnew st']
  /\ I st' = I st ++ [I_charge bat].
Proof.
  intros HC HU Hcs Hbat Hs Hp st'.
  destruct (battery_constants_some cfg bat Hbat) as (_ & HM & HI & HP).
  assert (HU0 : 0 < U_bat cfg) by (rewrite HU; reflexivity).
  pose proof (surplus_current cfg bat _ _ HU0 HP Hp) as Hlt.
  assert (E : st' = _)
    by (apply body_full_rate; [exact Hs | exact Hp | apply Qlt_le_weak, Hlt]).
  assert (I40 : I_charge bat == 40) by (rewrite HI, HC, Hcs; reflexivity).
  split; [exact I40|]. split.
  - unfold initial_state; simpl. rewrite HM, HC. reflexivity.
  - rewrite E; simpl. split; [|split; reflexivity].
    rewrite I40. field.
Qed.


End Battery_properties.

(** ** Runs of the script *)

Lemma battery_constants_of cfg :
  ~ charging_speed cfg == 0 -> battery_constants cfg = Some (battery_of cfg).
Proof.
  intro H. unfold battery_constants, py_div.
  destruct (Qeq_bool (charging_speed cfg) 0) eqn:E; [|reflexivity].
  apply Qeq_bool_iff in E. contradiction.
Qed.

(** C6, as the code has it: nothing tests the sign of the capacity, of the
    voltage or of the charging current.  For every configuration with
    constants in the range of doubles, a charging speed and a capacity that
    are not zero, the battery constants are computed from the values as
    they are and the loop runs over the whole sweep with them, appending one
    entry to [C] and to [I] per angle.  With a negative capacity [Cmaxmin]
    is negative, the initial charge is above it, and every iteration takes
    the saturated branch: [C] holds the negative capacity, [I] zeros, and
    [level] stays empty.  The range and the capacity that is not zero are
    what the script needs to pass lines 126-167 without an [OverflowError]
    or a division of the charge by a zero capacity; the model has neither
    failure. *)
Theorem invalid_battery_runs sind cfg angs :
  finite_config cfg ->
  ~ charging_speed cfg == 0 -> ~ Cmax cfg == 0 ->
  battery_constants cfg = Some (battery_of cfg)
  /\ length (C (battery_loop sind cfg (battery_of cfg) angs)) = length angs
  /\ length (I (battery_loop sind cfg (battery_of cfg) angs)) = length angs
  /\ (Cmax cfg < 0 ->
      Cmaxmin (battery_of cfg) < 0
      /\ C (battery_loop sind cfg (battery_of cfg) angs)
         = repeat (Cmaxmin (battery_of cfg)) (length angs)
      /\ I (battery_loop sind cfg (battery_of cfg) angs)
         = repeat 0 (length angs)
      /\ level (battery_loop sind cfg (battery_of cfg) angs) = []).
Proof.
  intros _ Hcs _.
  destruct (series_lengths sind cfg (battery_of cfg) angs) as (HC & HI & _).
  split; [apply battery_constants_of; exact Hcs|].
  split; [exact HC|]. split; [exact HI|].
  intro Hneg.
  assert (Hm : Cmaxmin (battery_of cfg) < 0).
  { simpl. assert (E : (0 : Q) == 0 * 60.0) by ring.
    rewrite E. apply Qmult_lt_compat_r; [reflexivity | exact Hneg]. }
  split; [exact Hm|].
  assert (Hs : Cmaxmin (battery_of cfg)
               < Cnew (initial_state (battery_of cfg)))
    by (unfold initial_state; cbn [Cnew]; lra).
  unfold battery_loop, battery_loop_from.
  pose proof (saturated_latch sind cfg (battery_of cfg) angs
                (Ptotal cfg angs) (seq 0 (length angs))
                (initial_state (battery_of cfg)) Hs) as (_ & H2 & H3 & H4).
  rewrite length_seq in H2, H3. auto.
Qed.

(** ** Worked examples *)

Ltac qcompute := vm_compute; try reflexivity; try (intro; discriminate).

(** The sine of the examples at the angles they visit. *)
Lemma sind_table_values :
  Forall2 Qeq (map sind_table [0; 30; 90; 150; 180; 270])
    [0; 1 # 2; 1; 1 # 2; 0; -1].
Proof.
  repeat constructor.
Qed.

(** C1: on [filling_config] the sweep has four angles and the series [C] and
    [I] four entries, but [level] only two: the two saturated iterations
    append nothing to it. *)
Theorem level_series_short :
  exists angs st,
    angles filling_config = Some angs
    /\ simulate sind_table filling_config = Some st
    /\ length angs = 4%nat
    /\ length (C st) = 4%nat
    /\ length (I st) = 4%nat
    /\ length (level st) = 2%nat.
Proof.
  eexists. eexists.
  split; [vm_compute; reflexivity|].
  split; [vm_compute; reflexivity|].
  repeat split.
Qed.

(** C2: on [filling_config] the second iteration lifts the charge above the
    capacity.  The third and the fourth record the capacity and a zero
    current, although at the fourth angle (270 degrees) the solar power is
    zero and the consumption positive; the charge kept by the loop is still
    the value above the capacity. *)
Theorem saturation_never_released :
  exists angs st,
    angles filling_config = Some angs
    /\ simulate sind_table filling_config = Some st
    /\ Cmaxmin (battery_of filling_config)
       < Cnew (battery_loop_from sind_table filling_config
                 (battery_of filling_config) angs
                 (Ptotal filling_config angs)
                 (initial_state (battery_of filling_config)) 2)
    /\ Psolar sind_table filling_config (nth 3 angs 0)
       < nth 3 (Ptotal filling_config angs) 0
    /\ nth 2 (I st) 1 == 0 /\ nth 3 (I st) 1 == 0
    /\ nth 2 (C st) 0 == Cmaxmin (battery_of filling_config)
    /\ nth 3 (C st) 0 == Cmaxmin (battery_of filling_config)
    /\ Cmaxmin (battery_of filling_config) < Cnew st.
Proof.
  eexists. eexists.
  split; [vm_compute; reflexivity|].
  split; [vm_compute; reflexivity|].
  repeat split.
Qed.



(** C4, counterexample: on [idle_config] the second iteration (30 degrees) is
    neither saturated nor in surplus, the solar power (110) exceeds the
    consumption (67.9), and the current it records is positive. *)
Lemma deficit_branch_positive_current :
  exists angs,
    angles idle_config = Some angs
    /\ battery_constants idle_config = Some (battery_of idle_config)
    /\ ~ Cmaxmin (battery_of idle_config)
         < Cnew (battery_loop_from sind_table idle_config
                   (battery_of idle_config) angs (Ptotal idle_config angs)
                   (initial_state (battery_of idle_config)) 1)
    /\ ~ nth 1 (Ptotal idle_config angs) 0 + Pcharge (battery_of idle_config)
         < Psolar sind_table idle_config (nth 1 angs 0)
    /\ 0 < nth 1 (I (battery_loop_from sind_table idle_config
                       (battery_of idle_config) angs (Ptotal idle_config angs)
                       (initial_state (battery_of idle_config)) 2)) 0.
Proof.
  eexists.
  split; [vm_compute; reflexivity|].
  split; [reflexivity|].
  split; [qcompute|]. split; [qcompute|]. reflexivity.
Qed.

(** The first iteration of [idle_config], at 0 degrees, is a deficit step. *)
Lemma deficit_step_witness :
  I (battery_body sind_table idle_config (battery_of idle_config) [0]
       (Ptotal idle_config [0]) (initial_state (battery_of idle_config)) 0)
  = [- ((nth 0 (Ptotal idle_config [0]) 0 - Psolar sind_table idle_config 0)
        / U_bat idle_config)].
Proof.
  destruct (deficit_step sind_table idle_config (battery_of idle_config) [0]
              (Ptotal idle_config [0])
              (initial_state (battery_of idle_config)) 0) as [E _].
  - qcompute.
  - qcompute.
  - rewrite E. reflexivity.
Defined.

(** At 90 degrees [idle_config] is in surplus: 220 > 67.9 + 148. *)
Lemma nominal_charge_step_witness :
  Cnew (battery_body sind_table idle_config (battery_of idle_config) [90]
          (Ptotal idle_config [90])
          (initial_state (battery_of idle_config)) 0)
  == Cnew (initial_state (battery_of idle_config))
     + 40 * (T idle_config / 360 * step idle_config).
Proof.
  apply (nominal_charge_step sind_table idle_config (battery_of idle_config)
           [90] (Ptotal idle_config [90])
           (initial_state (battery_of idle_config)) 0); qcompute.
Defined.



(** C6, counterexample: [negative_capacity_config] has a negative capacity
    and [negative_voltage_config] a negative battery voltage.  For both the
    constants are computed and the sweep is built, and the loop runs over
    the four angles: with a negative [Cmaxmin] in the first, and with a
    negative charging power, to the end and with all three series complete,
    in the second. *)
Lemma invalid_battery_accepted :
  (Cmax negative_capacity_config <= 0
   /\ battery_constants negative_capacity_config
      = Some (battery_of negative_capacity_config)
   /\ Cmaxmin (battery_of negative_capacity_config) < 0
   /\ exists st, simulate sind_table negative_capacity_config = Some st
                 /\ length (C st) = 4%nat)
  /\ (U_bat negative_voltage_config <= 0
      /\ battery_constants negative_voltage_config
         = Some (battery_of negative_voltage_config)
      /\ Pcharge (battery_of negative_voltage_config) < 0
      /\ exists st, simulate sind_table negative_voltage_config = Some st
                    /\ length (C st) = 4%nat
                    /\ length (I st) = 4%nat
                    /\ length (level st) = 4%nat).
Proof.
  split.
  - split; [qcompute|]. split; [reflexivity|]. split; [reflexivity|].
    eexists. split; [vm_compute; reflexivity | reflexivity].
  - split; [qcompute|]. split; [reflexivity|]. split; [reflexivity|].
    eexists. split; [vm_compute; reflexivity | repeat split].
Qed.

(** A negative capacity within the range of doubles: every iteration of
    [negative_capacity_config] is saturated. *)
Lemma invalid_battery_runs_witness :
  C (battery_loop sind_table negative_capacity_config
       (battery_of negative_capacity_config) [0; 90; 180; 270])
  = repeat (Cmaxmin (battery_of negative_capacity_config))
      (length [0; 90; 180; 270]).
Proof.
  assert (Hf : finite_config negative_capacity_config)
    by (unfold finite_config;
        repeat (constructor; [split; qcompute|]); constructor).
  assert (Hcs : ~ charging_speed negative_capacity_config == 0) by qcompute.
  assert (Hc0 : ~ Cmax negative_capacity_config == 0) by qcompute.
  assert (Hneg : Cmax negative_capacity_config < 0) by qcompute.
  destruct (invalid_battery_runs sind_table negative_capacity_config
              [0; 90; 180; 270] Hf Hcs Hc0) as (_ & _ & _ & H).
  destruct (H Hneg) as (_ & HC & _). exact HC.
Defined.

(** The theorems that carry hypotheses, applied to concrete inputs. *)

(** At 180 degrees, the end angle of the camera, the consumption of the
    script's configuration is the one with the camera switched off. *)
Lemma end_angle_exclusive_witness :
  nth 2 (Ptotal source_config [0; 90; 180; 270]) 0
  = nth 2 (Ptotal (set_switches true false true source_config)
             [0; 90; 180; 270]) 0.
Proof.
  destruct (end_angle_exclusive source_config [0; 90; 180; 270] 2)
    as (H & _); [simpl; lia|].
  apply H. reflexivity.
Defined.

(** At 90 degrees the phase modulo 10 is 0 and the attitude correction
    adds its 66 mW. *)
Lemma ac_phase_gated_witness :
  nth 1 (Ptotal source_config [0; 90; 180; 270]) 0
  == nth 1 (Ptotal (set_switches true true false source_config)
              [0; 90; 180; 270]) 0
     + P_ac source_config.
Proof.
  assert (Hi : (1 < length [0; 90; 180; 270])%nat) by (simpl; lia).
  destruct (ac_phase_gated source_config [0; 90; 180; 270] 1
              eq_refl eq_refl eq_refl eq_refl Hi) as (H & _).
  apply H. split; qcompute.
Defined.

(** * Further properties of the script *)

(** ** Solar power and the sweep *)

(** X1: with a maximum power that is not negative the solar power is never
    negative; it is zero wherever the sine is not positive, and at most
    [Pmax] wherever the sine is at most 1.  [Psun] holds one such value per
    angle. *)
Theorem Psolar_range (sind : Q -> Q) (cfg : Config) (angs : list Q) :
  0 <= Pmax cfg ->
  (forall a, 0 <= Psolar sind cfg a)
  /\ (forall a, sind a <= 0 -> Psolar sind cfg a = 0)
  /\ (forall a, sind a <= 1 -> Psolar sind cfg a <= Pmax cfg)
  /\ length (Psun sind cfg angs) = length angs
  /\ Forall (fun p => 0 <= p) (Psun sind cfg angs).
Proof.
  intro HP.
  assert (nonneg : forall a, 0 <= Psolar sind cfg a).
  { intro a. unfold Psolar. destruct (Qltb 0 (sind a)) eqn:E; [|lra].
    apply Qltb_lt in E. apply Qmult_le_0_compat; lra. }
  split; [exact nonneg|]. split; [|split; [|split]].
  - intros a Ha. unfold Psolar.
    destruct (Qltb 0 (sind a)) eqn:E; [|reflexivity].
    apply Qltb_lt in E. lra.
  - intros a Ha. unfold Psolar. destruct (Qltb 0 (sind a)) eqn:E; [|exact HP].
    assert (0 <= Pmax cfg * (1 - sind a)) by (apply Qmult_le_0_compat; lra).
    lra.
  - apply length_map.
  - unfold Psun. apply Forall_map, Forall_forall. intros a _. apply nonneg.
Qed.

(** On [0, f) the phase is the angle itself. *)
Lemma py_mod_small (a f : Q) : 0 <= a -> a < f -> py_mod a f == a.
Proof.
  intros H0 Hf. unfold py_mod.
  assert (E : Qfloor (a / f) = 0%Z).
  { apply Qfloor_unique.
    - change (inject_Z 0) with 0. apply Qle_shift_div_l; lra.
    - change (inject_Z (0 + 1)) with 1. apply Qlt_shift_div_r; lra. }
  rewrite E. change (inject_Z 0) with 0. ring.
Qed.

(** X4: a step of the wrong sign gives an empty sweep; the loop then does
    not run and the script ends with the initial charge and three empty
    series. *)
Theorem negative_step_empty (sind : Q -> Q) (cfg : Config) :
  step cfg < 0 -> ~ charging_speed cfg == 0 ->
  angles cfg = Some []
  /\ simulate sind cfg = Some (initial_state (battery_of cfg)).
Proof.
  intros Hs Hc.
  assert (Ha : angles cfg = Some []).
  { unfold angles, arange.
    destruct (Qeq_bool (step cfg) 0) eqn:E;
      [apply Qeq_bool_iff in E; lra|].
    assert (Hx : (360 - 0) / step cfg < 0).
    { assert (0 < (360 - 0) / - step cfg)
        by (apply Qlt_shift_div_l; lra).
      assert ((360 - 0) / - step cfg == - ((360 - 0) / step cfg))
        by (field; lra).
      lra. }
    pose proof (Qceiling_lt ((360 - 0) / step cfg)) as Hc'.
    assert (Hz : (Qceiling ((360 - 0) / step cfg) - 1 < 0)%Z).
    { rewrite Zlt_Qlt. change (inject_Z 0) with 0. lra. }
    replace (Z.to_nat (Qceiling ((360 - 0) / step cfg))) with 0%nat by lia.
    reflexivity. }
  split; [exact Ha|].
  unfold simulate. rewrite Ha, (battery_constants_of cfg Hc). reflexivity.
Qed.

(** ** Consumption *)

(** X5: with the three periodic consumers switched off every entry of
    [Ptotal] is the idle consumption, and [Ptotal] has one entry per
    angle. *)
Theorem consumers_off_idle (cfg : Config) (angs : list Q) (i : nat) :
  rxtx_active cfg = false -> cam_active cfg = false ->
  AC_active cfg = false ->
  (i < length angs)%nat ->
  length (Ptotal cfg angs) = length angs
  /\ nth i (Ptotal cfg angs) 0 == Pidle cfg.
Proof.
  intros Hr Hc Ha Hi. split; [apply length_Ptotal|].
  rewrite nth_Ptotal by exact Hi. unfold Ptotal_at, Pactive_at.
  rewrite Hr, Hc, Ha. simpl. ring.
Qed.


(** X7: for an angle in [0, f_rxtx), hence for every angle of the sweep when
    the period is 360, the phase test of the transceiver repeats the test
    on the angle: the transceiver is on exactly from its start angle to its
    end angle. *)
Theorem rxtx_window_first_period (cfg : Config) (a : Q) :
  0 <= a -> a < f_rxtx cfg ->
  (rxtx_window cfg a = true <-> start_rxtx cfg <= a /\ a < end_rxtx cfg).
Proof.
  intros H0 Hf. rewrite rxtx_window_spec.
  rewrite (py_mod_small a (f_rxtx cfg) H0 Hf). tauto.
Qed.


(** ** The battery loop, step by step *)

Section Battery_steps.

Variable sind : Q -> Q.
Variable cfg : Config.
Variable bat : Battery.
Variables angs Ptot : list Q.

Local Abbreviation body := (battery_body sind cfg bat angs Ptot).
Local Abbreviation dt := (T cfg / 360.0 * step cfg).
Local Abbreviation percent := (fun c : Q => (c / Cmaxmin bat) * 100).

(** The branch an iteration takes, with the body rewritten accordingly. *)
Ltac branches st i :=
  let Hs := fresh "Hs" in
  let Hp := fresh "Hp" in
  let Hr := fresh "Hr" in
  destruct (Qlt_le_dec (Cmaxmin bat) (Cnew st)) as [Hs|Hs];
  [ rewrite (body_saturated sind cfg bat angs Ptot st i Hs)
  | destruct (Qlt_le_dec (nth i Ptot 0 + Pcharge bat)
                (Psolar sind cfg (nth i angs 0))) as [Hp|Hp];
    [ destruct (Qlt_le_dec
                  ((Psolar sind cfg (nth i angs 0) - nth i Ptot 0) / U_bat cfg)
                  (I_charge bat)) as [Hr|Hr];
      [ rewrite (body_reduced_rate sind cfg bat angs Ptot st i
                   (Qle_not_lt _ _ Hs) Hp (Qlt_not_le _ _ Hr))
      | rewrite (body_full_rate sind cfg bat angs Ptot st i
                   (Qle_not_lt _ _ Hs) Hp Hr) ]
    | rewrite (body_deficit sind cfg bat angs Ptot st i
                 (Qle_not_lt _ _ Hs) (Qle_not_lt _ _ Hp)) ] ];
  cbv zeta; simpl Cnew; simpl C; simpl I; simpl level.

Section Positive_voltage.

Hypothesis HU : 0 < U_bat cfg.
Hypothesis HP : Pcharge bat = U_bat cfg * I_charge bat.
Hypothesis HI : 0 <= I_charge bat.

Hypothesis Hdt : 0 <= dt.

(** No branch adds more charge than one step at the charging current. *)
Lemma body_gain st i : Cnew (body st i) <= Cnew st + I_charge bat * dt.
Proof.
  assert (HId : 0 <= I_charge bat * dt) by (apply Qmult_le_0_compat; lra).
  branches st i.
  - lra.
  - assert (0 <= (I_charge bat
                  - (Psolar sind cfg (nth i angs 0) - nth i Ptot 0) / U_bat cfg)
                 * dt) by (apply Qmult_le_0_compat; lra).
    lra.
  - lra.
  - assert (- I_charge bat
            <= (nth i Ptot 0 - Psolar sind cfg (nth i angs 0)) / U_bat cfg)
      by (apply Qle_shift_div_l; [exact HU | rewrite HP in Hp; lra]).
    assert (0 <= (I_charge bat
                  + (nth i Ptot 0 - Psolar sind cfg (nth i angs 0)) / U_bat cfg)
                 * dt) by (apply Qmult_le_0_compat; lra).
    lra.
Qed.

Lemma loop_gain idxs st :
  Cnew (fold_left body idxs st)
  <= Cnew st + inject_Z (Z.of_nat (length idxs)) * (I_charge bat * dt).
Proof.
  revert st. induction idxs as [|i idxs IH]; intro st.
  - simpl. change (inject_Z 0) with 0. lra.
  - cbn [fold_left length]. pose proof (IH (body st i)) as H1.
    pose proof (body_gain st i) as H2.
    rewrite Nat2Z.inj_succ, <- Z.add_1_r, inject_Z_plus.
    change (inject_Z 1) with 1. lra.
Qed.

End Positive_voltage.

(** A loop that ends at or below the capacity never took the saturated
    branch: [level] grew at every iteration, it is [C] in percent of the
    capacity, and the last entry of [C] is the final charge. *)
Lemma unsaturated_fold idxs st d :
  ~ Cmaxmin bat < Cnew (fold_left body idxs st) ->
  level st = map percent (C st) ->
  last (C st) d = Cnew st ->
  level (fold_left body idxs st) = map percent (C (fold_left body idxs st))
  /\ last (C (fold_left body idxs st)) d = Cnew (fold_left body idxs st)
  /\ length (level (fold_left body idxs st))
     = (length (level st) + length idxs)%nat.
Proof.
  revert st. induction idxs as [|i idxs IH]; intros st Hend Hl Hc.
  - simpl. repeat split; [exact Hl | exact Hc | lia].
  - cbn [fold_left length] in *.
    destruct (Qlt_le_dec (Cmaxmin bat) (Cnew st)) as [Hs|Hs].
    + exfalso. apply Hend.
      pose proof (saturated_latch sind cfg bat angs Ptot (i :: idxs) st Hs)
        as (E & _).
      cbn [fold_left] in E. rewrite E. exact Hs.
    + assert (Hb : level (body st i) = map percent (C (body st i))
                   /\ last (C (body st i)) d = Cnew (body st i)
                   /\ length (level (body st i)) = S (length (level st))).
      { clear IH Hend. branches st i; try (exfalso; lra);
          rewrite map_app, last_last, length_app, Hl; simpl;
          repeat split; lia. }
      destruct Hb as (Hl' & Hc' & Hn').
      destruct (IH (body st i) Hend Hl' Hc') as (R1 & R2 & R3).
      repeat split; [exact R1 | exact R2 | rewrite R3, Hn'; lia].
Qed.

End Battery_steps.

(** ** The battery loop over a sweep *)

Section Battery_runs.

Variable sind : Q -> Q.

Lemma unsaturated_level_length cfg bat angs :
  ~ Cmaxmin bat < Cnew (battery_loop sind cfg bat angs) ->
  length (level (battery_loop sind cfg bat angs)) = length angs.
Proof.
  unfold battery_loop, battery_loop_from. intro Hend.
  destruct (unsaturated_fold sind cfg bat angs (Ptotal cfg angs)
              (seq 0 (length angs)) (initial_state bat)
              (Cnew (initial_state bat)) Hend eq_refl eq_refl)
    as (_ & _ & H3).
  rewrite length_seq in H3. exact H3.
Qed.

(** X10: a run that ends with a charge not above the capacity never took
    the saturated branch: [level] has one entry per angle, each the entry
    of [C] in percent of the capacity, and the last entry of [C] is the
    final charge. *)
Theorem unsaturated_run_complete cfg bat angs :
  ~ Cmaxmin bat < Cnew (battery_loop sind cfg bat angs) ->
  length (level (battery_loop sind cfg bat angs)) = length angs
  /\ level (battery_loop sind cfg bat angs)
     = map (fun c => (c / Cmaxmin bat) * 100)
         (C (battery_loop sind cfg bat angs))
  /\ last (C (battery_loop sind cfg bat angs)) (Cnew (initial_state bat))
     = Cnew (battery_loop sind cfg bat angs).
Proof.
  unfold battery_loop, battery_loop_from. intro Hend.
  destruct (unsaturated_fold sind cfg bat angs (Ptotal cfg angs)
              (seq 0 (length angs)) (initial_state bat)
              (Cnew (initial_state bat)) Hend eq_refl eq_refl)
    as (H1 & H2 & H3).
  rewrite length_seq in H3. simpl in H3. auto.
Qed.

(** When the initial charge plus one step at the charging current per angle
    does not pass the capacity, the run ends at or below the capacity. *)
Lemma bounded_gain_unsaturated cfg bat angs :
  0 < U_bat cfg -> battery_constants cfg = Some bat -> 0 <= I_charge bat ->
  0 <= T cfg / 360.0 * step cfg ->
  Cnew (initial_state bat)
  + inject_Z (Z.of_nat (length angs))
    * (I_charge bat * (T cfg / 360.0 * step cfg)) <= Cmaxmin bat ->
  ~ Cmaxmin bat < Cnew (battery_loop sind cfg bat angs).
Proof.
  intros HU Hbat HI Hdt Hroom.
  destruct (battery_constants_some cfg bat Hbat) as (_ & _ & _ & HP).
  unfold battery_loop, battery_loop_from.
  pose proof (loop_gain sind cfg bat angs (Ptotal cfg angs) HU HP HI Hdt
                (seq 0 (length angs)) (initial_state bat)) as H.
  rewrite length_seq in H. lra.
Qed.


(** X12: the script as written, whatever the sine: the sweep has 21600
    angles, the run never takes the saturated branch (the charge can gain
    at most 3600 mAmin on the initial 6000, against a capacity of 12000),
    and the three series have 21600 entries each. *)
Theorem script_run_complete :
  exists angs st,
    angles source_config = Some angs
    /\ simulate sind source_config = Some st
    /\ length angs = Z.to_nat 21600
    /\ Cnew st <= Cmaxmin (battery_of source_config)
    /\ length (C st) = length angs
    /\ length (I st) = length angs
    /\ length (level st) = length angs.
Proof.
  set (angs := map (fun i : nat => 0 + inject_Z (Z.of_nat i) * step source_config)
                 (seq 0 (Z.to_nat 21600))).
  assert (Ha : angles source_config = Some angs).
  { unfold angles, arange.
    replace (Qeq_bool (step source_config) 0) with false by reflexivity.
    replace (Qceiling ((360 - 0) / step source_config)) with 21600%Z
      by (vm_compute; reflexivity).
    reflexivity. }
  assert (Hb : battery_constants source_config
               = Some (battery_of source_config)) by reflexivity.
  assert (Hn : length angs = Z.to_nat 21600)
    by (unfold angs; rewrite length_map, length_seq; reflexivity).
  exists angs, (battery_loop sind source_config (battery_of source_config) angs).
  split; [exact Ha|]. split.
  { unfold simulate. rewrite Ha, Hb. reflexivity. }
  split; [exact Hn|].
  assert (Hend : ~ Cmaxmin (battery_of source_config)
                   < Cnew (battery_loop sind source_config
                             (battery_of source_config) angs)).
  { apply bounded_gain_unsaturated;
      [reflexivity | exact Hb | discriminate | discriminate |].
    rewrite Hn, Z2Nat.id by lia. vm_compute. discriminate. }
  destruct (series_lengths sind source_config (battery_of source_config) angs)
    as (HC & HI & _).
  pose proof (unsaturated_level_length source_config
                (battery_of source_config) angs Hend) as HL.
  split; [apply Qnot_lt_le; exact Hend|].
  split; [exact HC | split; [exact HI | exact HL]].
Qed.


(** X15: once the charge after [k] iterations is above the capacity, the
    next [m] iterations, whatever the angles, leave the charge and [level]
    as they are and append [m] times the capacity to [C] and [m] zeros to
    [I]. *)
Theorem saturation_latches cfg bat angs Ptot st0 k m :
  Cmaxmin bat < Cnew (battery_loop_from sind cfg bat angs Ptot st0 k) ->
  Cnew (battery_loop_from sind cfg bat angs Ptot st0 (k + m))
  = Cnew (battery_loop_from sind cfg bat angs Ptot st0 k)
  /\ C (battery_loop_from sind cfg bat angs Ptot st0 (k + m))
     = C (battery_loop_from sind cfg bat angs Ptot st0 k)
       ++ repeat (Cmaxmin bat) m
  /\ I (battery_loop_from sind cfg bat angs Ptot st0 (k + m))
     = I (battery_loop_from sind cfg bat angs Ptot st0 k) ++ repeat 0 m
  /\ level (battery_loop_from sind cfg bat angs Ptot st0 (k + m))
     = level (battery_loop_from sind cfg bat angs Ptot st0 k).
Proof.
  unfold battery_loop_from. intro Hs.
  rewrite seq_app, fold_left_app.
  pose proof (saturated_latch sind cfg bat angs Ptot (seq (0 + k) m) _ Hs)
    as H.
  rewrite length_seq in H. exact H.
Qed.

End Battery_runs.

(** ** The further properties on concrete inputs *)

(** At noon (90 degrees) the script's panel delivers a power that is not
    negative. *)
Lemma Psolar_range_witness : 0 <= Psolar sind_table source_config 90.
Proof.
  assert (HP : 0 <= Pmax source_config) by qcompute.
  destruct (Psolar_range sind_table source_config [] HP) as (H & _).
  exact (H 90).
Defined.

(** A step of -1 degree. *)
Lemma negative_step_empty_witness :
  angles (set_step (-1) source_config) = Some [].
Proof.
  assert (Hs : step (set_step (-1) source_config) < 0) by qcompute.
  assert (Hc : ~ charging_speed (set_step (-1) source_config) == 0)
    by qcompute.
  exact (proj1 (negative_step_empty sind_table (set_step (-1) source_config)
                  Hs Hc)).
Defined.

(** [idle_config] has the three consumers off. *)
Lemma consumers_off_idle_witness :
  nth 1 (Ptotal idle_config [0; 30]) 0 == Pidle idle_config.
Proof.
  assert (Hi : (1 < length [0; 30])%nat) by (simpl; lia).
  exact (proj2 (consumers_off_idle idle_config [0; 30] 1
                  eq_refl eq_refl eq_refl Hi)).
Defined.


(** The transceiver of the script is on at 90 degrees. *)
Lemma rxtx_window_first_period_witness :
  rxtx_window source_config 90 = true.
Proof.
  assert (H0 : 0 <= 90) by qcompute.
  assert (Hf : 90 < f_rxtx source_config) by qcompute.
  assert (Hs : start_rxtx source_config <= 90) by qcompute.
  assert (He : 90 < end_rxtx source_config) by qcompute.
  exact (proj2 (rxtx_window_first_period source_config 90 H0 Hf)
           (conj Hs He)).
Defined.

(** Two steps of [idle_config] end below the capacity. *)
Lemma unsaturated_run_complete_witness :
  length (level (battery_loop sind_table idle_config (battery_of idle_config)
                   [0; 30])) = length [0; 30].
Proof.
  assert (Hend : ~ Cmaxmin (battery_of idle_config)
                   < Cnew (battery_loop sind_table idle_config
                             (battery_of idle_config) [0; 30])) by qcompute.
  exact (proj1 (unsaturated_run_complete sind_table idle_config
                  (battery_of idle_config) [0; 30] Hend)).
Defined.



(** On [filling_config] the charge is above the capacity after two
    iterations. *)
Lemma saturation_latches_witness :
  level (battery_loop_from sind_table filling_config
           (battery_of filling_config) [0; 90; 180; 270]
           (Ptotal filling_config [0; 90; 180; 270])
           (initial_state (battery_of filling_config)) (2 + 2))
  = level (battery_loop_from sind_table filling_config
             (battery_of filling_config) [0; 90; 180; 270]
             (Ptotal filling_config [0; 90; 180; 270])
             (initial_state (battery_of filling_config)) 2).
Proof.
  assert (Hs : Cmaxmin (battery_of filling_config)
               < Cnew (battery_loop_from sind_table filling_config
                         (battery_of filling_config) [0; 90; 180; 270]
                         (Ptotal filling_config [0; 90; 180; 270])
                         (initial_state (battery_of filling_config)) 2))
    by qcompute.
  destruct (saturation_latches sind_table filling_config
              (battery_of filling_config) [0; 90; 180; 270]
              (Ptotal filling_config [0; 90; 180; 270])
              (initial_state (battery_of filling_config)) 2 2 Hs)
    as (_ & _ & _ & H).
  exact H.
Defined.


End PowerSupply.
